(** * packages/core/src/utils/fetch.ts

    A shallow embedding of the outbound request helpers of the CLI core:
    the private-address classifier [isPrivateIp], the timeout-guarded
    request [fetchWithTimeout], and the two operations that install the
    process-wide undici dispatcher, [enableHttp2] and [setGlobalProxy].

    JavaScript values are first-order data, objects live in a heap and are
    denoted by references, exceptions are abrupt completions, and the
    process state (heap, pending timers, abort controllers, global
    dispatcher) is threaded explicitly.  What the file imports from the
    platform or from modules that are not part of this development
    ([node:url], [fetch], [undici], [./errors.js]) is an interface, the
    class [Platform]. *)

From Stdlib Require Import ZArith NArith String Ascii Bool List Lia.
From Stdlib Require Import DecimalString DecimalZ DecimalPos.
From stdpp Require Import gmap strings list.

Local Open Scope string_scope.

(** ** JavaScript values and completions *)

Abbreviation loc := nat (only parsing).

(** [VNum] carries the integer-valued numbers only; no other number is
    produced or inspected by the code of this file. *)
Inductive JsValue : Type :=
| VUndefined
| VNull
| VBool (b : bool)
| VNum (z : Z)
| VStr (s : string)
| VRef (l : loc).

(** The outcome of evaluating an expression or a block: a value, or a
    thrown value. *)
Inductive Completion (A : Type) : Type :=
| Normal (a : A)
| Throw (e : JsValue).

Arguments Normal {A} a.
Arguments Throw {A} e.

Module Pure.

(** Exceptions without state: enough for [isPrivateIp]. *)

Definition bind {A B} (c : Completion A) (k : A -> Completion B) : Completion B :=
  match c with
  | Normal a => k a
  | Throw e => Throw e
  end.

(** [try { body } catch (e) { handler e }] *)
Definition try_catch {A} (body : Completion A) (handler : JsValue -> Completion A)
  : Completion A :=
  match body with
  | Normal a => Normal a
  | Throw e => handler e
  end.

End Pure.

(** ** Regular expressions

    The fragment of the ECMAScript pattern language that
    [PRIVATE_IP_RANGES] is written in, with a backtracking matcher in
    continuation-passing style.  The boolean tells the matcher whether the
    current position is index 0 of the subject, which is what [^] asserts
    when the [m] flag is absent; [$] then asserts the end of the subject. *)

Inductive RegExp : Type :=
| RStart                      (* ^ *)
| REnd                        (* $ *)
| RChar (c : ascii)           (* a literal character; an escaped one such as \. too *)
| RRange (lo hi : ascii)      (* [lo-hi] *)
| RSeq (r1 r2 : RegExp)       (* r1 r2 *)
| RAlt (r1 r2 : RegExp)       (* r1|r2 *)
| REmpty.

Definition in_range (lo hi c : ascii) : bool :=
  (N_of_ascii lo <=? N_of_ascii c)%N && (N_of_ascii c <=? N_of_ascii hi)%N.

Fixpoint rmatch (r : RegExp) (at_start : bool) (input : string)
         (k : bool -> string -> bool) : bool :=
  match r with
  | RStart => at_start && k at_start input
  | REnd => match input with
            | EmptyString => k at_start input
            | String _ _ => false
            end
  | RChar c => match input with
               | String x rest => Ascii.eqb x c && k false rest
               | EmptyString => false
               end
  | RRange lo hi => match input with
                    | String x rest => in_range lo hi x && k false rest
                    | EmptyString => false
                    end
  | RSeq r1 r2 => rmatch r1 at_start input (fun b rest => rmatch r2 b rest k)
  | RAlt r1 r2 => rmatch r1 at_start input k || rmatch r2 at_start input k
  | REmpty => k at_start input
  end.

(** A match may begin at any index of the subject. *)
Fixpoint search (r : RegExp) (at_start : bool) (input : string) : bool :=
  rmatch r at_start input (fun _ _ => true)
  || match input with
     | EmptyString => false
     | String _ rest => search r false rest
     end.

(** [RegExp.prototype.test] for a pattern without the [g] and [y] flags. *)
Definition test (r : RegExp) (subject : string) : bool := search r true subject.

(** A run of literal characters. *)
Fixpoint lit (s : string) : RegExp :=
  match s with
  | EmptyString => REmpty
  | String c rest => RSeq (RChar c) (lit rest)
  end.

(** What is left of [s] after its prefix [p], if [p] is a prefix of [s]. *)
Fixpoint strip_prefix (p s : string) : option string :=
  match p, s with
  | EmptyString, _ => Some s
  | String a p', String b s' => if Ascii.eqb a b then strip_prefix p' s' else None
  | String _ _, EmptyString => None
  end.

(** ** [PRIVATE_IP_RANGES] *)

(** The group [(1[6-9]|2[0-9]|3[0-1])]. *)
Definition second_octet_172 : RegExp :=
  RAlt (RSeq (RChar "1") (RRange "6" "9"))
       (RAlt (RSeq (RChar "2") (RRange "0" "9"))
             (RSeq (RChar "3") (RRange "0" "1"))).

Definition PRIVATE_IP_RANGES : list RegExp :=
  [ RSeq RStart (lit "10.")                                   (* /^10\./ *)
  ; RSeq RStart (lit "127.")                                  (* /^127\./ *)
  ; RSeq RStart                                               (* /^172\.(1[6-9]|2[0-9]|3[0-1])\./ *)
      (RSeq (lit "172.") (RSeq second_octet_172 (lit ".")))
  ; RSeq RStart (lit "192.168.")                              (* /^192\.168\./ *)
  ; RSeq RStart (RSeq (lit "::1") REnd)                       (* /^::1$/ *)
  ; RSeq RStart (lit "fc00:")                                 (* /^fc00:/ *)
  ; RSeq RStart (lit "fe80:")                                 (* /^fe80:/ *)
  ].

(** ** [node:url]

    The fields of a parsed URL that the getters of the [URL] class expose. *)

Record URL : Type := {
  protocol : string;
  username : string;
  password : string;
  hostname : string;
  port : string;
  pathname : string;
  search_ : string;
  hash : string
}.

(** ** Objects and the heap *)

Inductive JsClass : Type :=
| ClassObject
| ClassError
| ClassTypeError
| ClassDOMException
| ClassFetchError.      (* class FetchError extends Error *)

(** [o instanceof Error], by the class the object was constructed from. *)
Definition instanceof_Error (c : JsClass) : bool :=
  match c with
  | ClassObject => false
  | ClassError | ClassTypeError | ClassDOMException | ClassFetchError => true
  end.


Record JsObject : Type := {
  obj_class : JsClass;
  obj_props : gmap string JsValue      (* the properties it answers to *)
}.

#[global] Instance JsValue_eq_dec : EqDecision JsValue.
Proof. solve_decision. Defined.

(** [a === b] on the values of this model. *)
Definition strict_eq (a b : JsValue) : bool := bool_decide (a = b).

(** [v.name], for a [v] that is neither [undefined] nor [null]: an absent
    property and a property of a primitive read as [undefined]. *)
Definition get_prop (h : gmap loc JsObject) (v : JsValue) (name : string) : JsValue :=
  match v with
  | VRef l =>
      match h !! l with
      | Some o => default VUndefined (obj_props o !! name)
      | None => VUndefined
      end
  | _ => VUndefined
  end.

(** ** undici dispatchers *)

(** The options the code passes to the constructors; [ProxyAgent.Options]
    extends [Agent.Options] with [uri]. *)
Record Options : Type := {
  uri : option string;
  allowH2 : bool
}.

Inductive Dispatcher : Type :=
| Agent (opts : Options)
| ProxyAgent (opts : Options).

(** ** Process state *)

(** The one kind of callback this file hands to [setTimeout]:
    [() => controller.abort()]. *)
Inductive TimerCallback : Type :=
| AbortCallback (controller : nat).

Record Timer : Type := {
  callback : TimerCallback;
  delay : Z
}.

Record State : Type := {
  heap : gmap loc JsObject;
  timers : gmap nat Timer;            (* the pending timers, by handle *)
  next_timer : nat;                   (* handles are never reused *)
  controllers : gmap nat bool;        (* [signal.aborted] of each AbortController *)
  globalDispatcher : option Dispatcher   (* [None]: undici's default *)
}.

Definition set_heap (h : gmap loc JsObject) (s : State) : State :=
  {| heap := h; timers := timers s; next_timer := next_timer s;
     controllers := controllers s; globalDispatcher := globalDispatcher s |}.

Definition set_timers (t : gmap nat Timer) (n : nat) (s : State) : State :=
  {| heap := heap s; timers := t; next_timer := n;
     controllers := controllers s; globalDispatcher := globalDispatcher s |}.

Definition set_controllers (c : gmap nat bool) (s : State) : State :=
  {| heap := heap s; timers := timers s; next_timer := next_timer s;
     controllers := c; globalDispatcher := globalDispatcher s |}.

Definition set_globalDispatcher (d : option Dispatcher) (s : State) : State :=
  {| heap := heap s; timers := timers s; next_timer := next_timer s;
     controllers := controllers s; globalDispatcher := d |}.

(** ** The monad of stateful code that may throw *)

Definition M (A : Type) : Type := State -> Completion A * State.

Definition ret {A} (a : A) : M A := fun s => (Normal a, s).

Definition throw {A} (e : JsValue) : M A := fun s => (Throw e, s).

Definition bind {A B} (m : M A) (k : A -> M B) : M B :=
  fun s =>
    match m s with
    | (Normal a, s1) => k a s1
    | (Throw e, s1) => (Throw e, s1)
    end.

Declare Scope js_scope.
Delimit Scope js_scope with js.
Notation "'let*' x ':=' m 'in' k" := (bind m (fun x => k))
  (at level 10, x name, m at level 100, k at level 200) : js_scope.

Definition get_heap : M (gmap loc JsObject) := fun s => (Normal (heap s), s).

(** [try { body } catch (e) { handler e } finally { fin }]: the handler
    runs on a throw of the body, the finaliser runs on every path, and an
    abrupt completion of the finaliser replaces the pending one. *)
Definition try_catch_finally {A} (body : M A) (handler : JsValue -> M A) (fin : M unit)
  : M A :=
  fun s =>
    let '(c, s1) := match body s with
                    | (Normal a, s1) => (Normal a, s1)
                    | (Throw e, s1) => handler e s1
                    end in
    match fin s1 with
    | (Normal _, s2) => (c, s2)
    | (Throw e, s2) => (Throw e, s2)
    end.

(** [new C(...)]: the object is stored at a location the heap does not use. *)
Definition alloc (o : JsObject) : M JsValue :=
  fun s =>
    let l := fresh (dom (heap s)) in
    (Normal (VRef l), set_heap (<[l := o]> (heap s)) s).

(** ** Timers and abort controllers *)

Definition new_AbortController : M nat :=
  fun s =>
    let c := fresh (dom (controllers s)) in
    (Normal c, set_controllers (<[c := false]> (controllers s)) s).

(** [controller.abort()] *)
Definition abort (c : nat) (s : State) : State :=
  set_controllers (<[c := true]> (controllers s)) s.

Definition setTimeout (cb : TimerCallback) (ms : Z) : M nat :=
  fun s =>
    let id := next_timer s in
    (Normal id,
     set_timers (<[id := {| callback := cb; delay := ms |}]> (timers s)) (S id) s).

Definition clearTimeout (id : nat) : M unit :=
  fun s => (Normal tt, set_timers (delete id (timers s)) (next_timer s) s).

Definition run_callback (cb : TimerCallback) (s : State) : State :=
  match cb with
  | AbortCallback c => abort c s
  end.

(** ** The event loop while a call is suspended

    What the rest of the process does between the suspension of an
    [await] and its resumption. A due timer leaves the pending set and
    its callback runs; other tasks arm and clear timers of their own; the
    platform allocates the objects it is about to deliver. *)

Inductive EnvEvent : Type :=
| TimerFires (id : nat)
| TaskSetsTimeout (cb : TimerCallback) (ms : Z)
| TaskClearsTimeout (id : nat)
| Allocates (o : JsObject).

Definition env_step (s : State) (ev : EnvEvent) : State :=
  match ev with
  | TimerFires id =>
      match timers s !! id with
      | Some t => run_callback (callback t)
                    (set_timers (delete id (timers s)) (next_timer s) s)
      | None => s
      end
  | TaskSetsTimeout cb ms => snd (setTimeout cb ms s)
  | TaskClearsTimeout id => snd (clearTimeout id s)
  | Allocates o => snd (alloc o s)
  end.

Definition env_run (evs : list EnvEvent) (s : State) : State :=
  fold_left env_step evs s.

(** A pending promise, seen from the awaiting function: the events that
    happen before it settles, and how it settles. *)
Record Suspension : Type := {
  events : list EnvEvent;
  settled : Completion JsValue
}.

(** [await p] *)
Definition await (p : Suspension) : M JsValue :=
  fun s => (settled p, env_run (events p) s).

(** ** The imported interface *)

Class Platform : Type := {
  (** [new URL(url)] of [node:url]; it throws a [TypeError] on a string
      that does not parse. *)
  URL_new : string -> Completion URL;
  (** [fetch(url, { signal })], the signal being that of the given abort
      controller, called in the given state. *)
  fetch : string -> nat -> State -> Suspension;
  (** [isNodeError] of [./errors.js], a type guard for
      [NodeJS.ErrnoException]: it reads the heap and returns. *)
  isNodeError : gmap loc JsObject -> JsValue -> bool;
  (** [getErrorMessage] of [./errors.js]: it reads the heap and returns
      a string. *)
  getErrorMessage : gmap loc JsObject -> JsValue -> string;
  (** The argument check of undici's [ProxyAgent] constructor: the value
      it throws, if it throws. *)
  ProxyAgent_rejects : Options -> option JsValue
}.

(** ** Rendering a number in a template literal

    [Number::toString] on a safe integer: its decimal digits, with a
    leading minus sign below zero. *)

Definition is_safe_integer (z : Z) : bool :=
  (Z.abs z <=? 2 ^ 53 - 1)%Z.

Definition number_to_string (z : Z) : string :=
  NilZero.string_of_int (Z.to_int z).

Section Fetch.

Context `{Platform}.

Local Open Scope js_scope.

(** ** [FetchError]

    [super(message, options)] installs [message], and [cause] when
    [options] has that property; the parameter property [public code]
    is assigned whatever was passed, [undefined] included; then
    [this.name = 'FetchError']. [options] is either absent or the
    literal [{ cause: c }]. *)
Definition new_FetchError (message : string) (code : JsValue) (options : option JsValue)
  : M JsValue :=
  let own := {[ "message" := VStr message ]} in
  let own := match options with
             | Some c => <[ "cause" := c ]> own
             | None => own
             end in
  let own := <[ "code" := code ]> own in
  let own := <[ "name" := VStr "FetchError" ]> own in
  alloc {| obj_class := ClassFetchError; obj_props := own |}.

(** ** [isPrivateIp] *)
Definition isPrivateIp (url : string) : Completion bool :=
  Pure.try_catch
    (Pure.bind (URL_new url) (fun u =>
       let hostname := hostname u in
       Normal (existsb (fun range => test range hostname) PRIVATE_IP_RANGES)))
    (fun _e => Normal false).

(** ** [fetchWithTimeout] *)

(** [isNodeError(error) && error.code === 'ABORT_ERR'] *)
Definition is_abort_error (h : gmap loc JsObject) (error : JsValue) : bool :=
  isNodeError h error && strict_eq (get_prop h error "code") (VStr "ABORT_ERR").

Definition fetchWithTimeout (url : string) (timeout : Z) : M JsValue :=
  let* controller := new_AbortController in
  let* timeoutId := setTimeout (AbortCallback controller) timeout in
  try_catch_finally
    (fun s =>
       (let* response := await (fetch url controller s) in
        ret response) s)
    (fun error =>
       let* h := get_heap in
       if is_abort_error h error then
         let* e := new_FetchError
                     ("Request timed out after " +:+ number_to_string timeout +:+ "ms")
                     (VStr "ETIMEDOUT") None in
         throw e
       else
         let* e := new_FetchError (getErrorMessage h error) VUndefined (Some error) in
         throw e)
    (clearTimeout timeoutId).

(** ** [enableHttp2] and [setGlobalProxy] *)

(** [new Agent(opts)] *)
Definition new_Agent (opts : Options) : M Dispatcher :=
  ret (Agent opts).

(** [new ProxyAgent(opts)] *)
Definition new_ProxyAgent (opts : Options) : M Dispatcher :=
  match ProxyAgent_rejects opts with
  | Some e => throw e
  | None => ret (ProxyAgent opts)
  end.

Definition setGlobalDispatcher (d : Dispatcher) : M unit :=
  fun s => (Normal tt, set_globalDispatcher (Some d) s).

Definition enableHttp2 : M unit :=
  let* agent := new_Agent {| uri := None; allowH2 := true |} in
  setGlobalDispatcher agent.

Definition setGlobalProxy (proxy : string) : M unit :=
  let* agent := new_ProxyAgent {| uri := Some proxy; allowH2 := true |} in
  setGlobalDispatcher agent.

(** A call of one of the two configuration operations, and a sequence
    of calls, each made in the state its predecessor left, whether it
    returned or threw. *)
Inductive ConfigCall : Type :=
| EnableHttp2
| SetGlobalProxy (proxy : string).

Definition run_call (c : ConfigCall) : M unit :=
  match c with
  | EnableHttp2 => enableHttp2
  | SetGlobalProxy proxy => setGlobalProxy proxy
  end.

Definition run_calls (cs : list ConfigCall) (s : State) : State :=
  fold_left (fun s c => snd (run_call c s)) cs s.

End Fetch.

(** ** The literal host names of the testable properties

    Dotted quads with octets in 0..255, and the three IPv6 shapes. *)

Definition decimal (n : N) : string :=
  NilZero.string_of_uint (N.to_uint n).

Definition ipv4_literal (a b c d : N) : string :=
  decimal a +:+ "." +:+ decimal b +:+ "." +:+ decimal c +:+ "." +:+ decimal d.

Definition octet (n : N) : Prop := (n <= 255)%N.

Inductive literal_private : string -> Prop :=
| lp_10 b c d :
    octet b -> octet c -> octet d -> literal_private (ipv4_literal 10 b c d)
| lp_127 b c d :
    octet b -> octet c -> octet d -> literal_private (ipv4_literal 127 b c d)
| lp_172 b c d :
    (16 <= b <= 31)%N -> octet c -> octet d -> literal_private (ipv4_literal 172 b c d)
| lp_192_168 c d :
    octet c -> octet d -> literal_private (ipv4_literal 192 168 c d)
| lp_loopback6 :
    literal_private "::1"
| lp_fc00 rest :
    literal_private ("fc00:" +:+ rest)
| lp_fe80 rest :
    literal_private ("fe80:" +:+ rest).

(** The textual prefixes that decide the classification. *)
Definition private_infix_172 : list string :=
  ["16"; "17"; "18"; "19"; "20"; "21"; "22"; "23";
   "24"; "25"; "26"; "27"; "28"; "29"; "30"; "31"].

Inductive private_prefix : string -> Prop :=
| pp_10 rest : private_prefix ("10." +:+ rest)
| pp_127 rest : private_prefix ("127." +:+ rest)
| pp_172 mid rest :
    In mid private_infix_172 -> private_prefix ("172." +:+ mid +:+ "." +:+ rest)
| pp_192_168 rest : private_prefix ("192.168." +:+ rest)
| pp_fc00 rest : private_prefix ("fc00:" +:+ rest)
| pp_fe80 rest : private_prefix ("fe80:" +:+ rest).

(** ** The configuration a dispatcher stands for

    Direct or through a proxy, with or without HTTP/2 multiplexing. *)



Definition multiplexing (d : Dispatcher) : bool :=
  match d with
  | Agent opts | ProxyAgent opts => allowH2 opts
  end.

(** ** A test double of the platform

    A small stand-in for the imported interface, on which the statements
    below are exercised at concrete inputs. Its URL parser reads
    [scheme://host[:port][/path][?query]] with a lower-case scheme and a
    host of letters, digits, dots and hyphens, and rejects everything
    else; its network is scripted by the path of the URL. *)

Module Double.

Definition is_lower (c : ascii) : bool := in_range "a" "z" c.
Definition is_digit (c : ascii) : bool := in_range "0" "9" c.
Definition is_host_char (c : ascii) : bool :=
  is_lower c || is_digit c || Ascii.eqb c "." || Ascii.eqb c "-".

Fixpoint span (p : ascii -> bool) (s : string) : string * string :=
  match s with
  | EmptyString => (EmptyString, EmptyString)
  | String c rest =>
      if p c then let '(a, b) := span p rest in (String c a, b)
      else (EmptyString, s)
  end.

Definition invalid_url : JsValue := VStr "TypeError: Invalid URL".

Definition parse_tail (scheme host : string) (rest : string) : Completion URL :=
  let '(prt, rest) :=
    match rest with
    | String ":" r => span is_digit r
    | _ => (EmptyString, rest)
    end in
  let '(path, query) := span (fun c => negb (Ascii.eqb c "?")) rest in
  match path with
  | String "/" _ | EmptyString =>
      Normal {| protocol := scheme +:+ ":"; username := ""; password := "";
                hostname := host; port := prt;
                pathname := match path with EmptyString => "/" | _ => path end;
                search_ := query; hash := "" |}
  | _ => Throw invalid_url
  end.

Definition URL_new (url : string) : Completion URL :=
  let '(scheme, rest) := span is_lower url in
  match scheme, strip_prefix "://" rest with
  | String _ _, Some rest =>
      let '(host, rest) := span is_host_char rest in
      match host with
      | String _ _ => parse_tail scheme host rest
      | EmptyString => Throw invalid_url
      end
  | _, _ => Throw invalid_url
  end.

(** [error instanceof Error && 'code' in error] *)
Definition isNodeError (h : gmap loc JsObject) (v : JsValue) : bool :=
  match v with
  | VRef l =>
      match h !! l with
      | Some o => instanceof_Error (obj_class o)
                  && bool_decide (is_Some (obj_props o !! "code"))
      | None => false
      end
  | _ => false
  end.

Definition getErrorMessage (h : gmap loc JsObject) (v : JsValue) : string :=
  match get_prop h v "message", v with
  | VStr m, _ => m
  | _, VStr s => s
  | _, _ => "Failed to get error details"
  end.

Definition ProxyAgent_rejects (opts : Options) : option JsValue :=
  match uri opts with
  | None | Some EmptyString => Some (VStr "InvalidArgumentError: Proxy uri is mandatory")
  | Some u =>
      match URL_new u with
      | Normal _ => None
      | Throw e => Some e
      end
  end.

(** Three objects the scripted network delivers. *)
Definition reset_error : JsObject :=
  {| obj_class := ClassError;
     obj_props := {[ "message" := VStr "read ECONNRESET";
                     "code" := VStr "ECONNRESET" ]} |}.

Definition abort_error : JsObject :=
  {| obj_class := ClassError;
     obj_props := {[ "name" := VStr "AbortError";
                     "message" := VStr "This operation was aborted";
                     "code" := VStr "ABORT_ERR" ]} |}.

Definition response : JsObject :=
  {| obj_class := ClassObject;
     obj_props := {[ "status" := VNum 200 ]} |}.

Definition start : State :=
  {| heap := {[ 0 := reset_error; 1 := abort_error; 2 := response ]};
     timers := ∅; next_timer := 0; controllers := ∅;
     globalDispatcher := None |}.

(** The scripted network: [/reset] fails at once, [/hang] never
    answers, so that the caller's timer, the one armed last, fires and
    the request is rejected with the abort error; any other path is
    answered. *)
Definition fetch (url : string) (signal : nat) (s : State) : Suspension :=
  match URL_new url with
  | Normal u =>
      if String.eqb (pathname u) "/reset" then
        {| events := []; settled := Throw (VRef 0) |}
      else if String.eqb (pathname u) "/hang" then
        {| events := [TimerFires (Nat.pred (next_timer s))];
           settled := Throw (VRef 1) |}
      else
        {| events := []; settled := Normal (VRef 2) |}
  | Throw e => {| events := []; settled := Throw e |}
  end.

End Double.

Definition double : Platform :=
  {| URL_new := Double.URL_new;
     fetch := Double.fetch;
     isNodeError := Double.isNodeError;
     getErrorMessage := Double.getErrorMessage;
     ProxyAgent_rejects := Double.ProxyAgent_rejects |}.

(** ** The stages of a call of [fetchWithTimeout]

    Names for the controller the call creates, the state in which it
    suspends (controller created, timer armed), the promise it awaits, and
    the state in which it resumes. The handle of the timer it arms is
    [next_timer s]. *)

Section Stages.

Context `{Platform}.

Definition controller_of (s : State) : nat := fresh (dom (controllers s)).

Definition suspended (timeout : Z) (s : State) : State :=
  snd (setTimeout (AbortCallback (controller_of s)) timeout
         (snd (new_AbortController s))).

Definition pending (url : string) (timeout : Z) (s : State) : Suspension :=
  fetch url (controller_of s) (suspended timeout s).

Definition resumed (url : string) (timeout : Z) (s : State) : State :=
  env_run (events (pending url timeout s)) (suspended timeout s).

(** The reading of the specification under which the wrapper of a
    request failure carries, in its own [code] field, the code of the
    failure it wraps. *)
Definition forwards_code (url : string) (timeout : Z) (s : State) : Prop :=
  forall e code l s',
    settled (pending url timeout s) = Throw e ->
    is_abort_error (heap (resumed url timeout s)) e = false ->
    get_prop (heap (resumed url timeout s)) e "code" = VStr code ->
    fetchWithTimeout url timeout s = (Throw (VRef l), s') ->
    get_prop (heap s') (VRef l) "code" = VStr code.

End Stages.

(** An event that arms no timer. *)
Definition quiet (ev : EnvEvent) : bool :=
  match ev with
  | TaskSetsTimeout _ _ => false
  | TimerFires _ | TaskClearsTimeout _ | Allocates _ => true
  end.

(** [needle] occurs in [hay]. *)
Definition includes (needle hay : string) : Prop :=
  exists pre post, hay = pre +:+ needle +:+ post.

(** ** Sequences of configuration calls *)

Section Reconfiguration.

Context `{Platform}.

(** The dispatcher a call constructs. *)
Definition dispatcher_of (c : ConfigCall) : Dispatcher :=
  match c with
  | EnableHttp2 => Agent {| uri := None; allowH2 := true |}
  | SetGlobalProxy proxy => ProxyAgent {| uri := Some proxy; allowH2 := true |}
  end.

(** Whether the constructor the call invokes accepts its argument. *)
Definition accepts (c : ConfigCall) : bool :=
  match c with
  | EnableHttp2 => true
  | SetGlobalProxy proxy =>
      match ProxyAgent_rejects {| uri := Some proxy; allowH2 := true |} with
      | None => true
      | Some _ => false
      end
  end.

(** The dispatcher in force after a sequence of calls, read off the
    sequence alone. *)
Definition effective (cs : list ConfigCall) (d0 : option Dispatcher)
  : option Dispatcher :=
  fold_left (fun d c => if accepts c then Some (dispatcher_of c) else d) cs d0.

(** The reading of the specification under which the last call of a
    sequence, whatever it is, decides the configuration. *)
Definition last_call_decides : Prop :=
  forall cs1 cs2 c s1 s2,
    globalDispatcher (run_calls (cs1 ++ [c]) s1)
    = globalDispatcher (run_calls (cs2 ++ [c]) s2).

End Reconfiguration.

(** ** Handles, events and the abort controller

    Every pending handle was issued: it lies below the next one. *)
Definition timers_wf (s : State) : Prop :=
  forall id, is_Some (timers s !! id) -> id < next_timer s.

(** An event that does not take the timer [id] out of the pending set. *)
Definition keeps (id : nat) (ev : EnvEvent) : bool :=
  match ev with
  | TimerFires i | TaskClearsTimeout i => negb (Nat.eqb i id)
  | TaskSetsTimeout _ _ | Allocates _ => true
  end.

(** An event that runs no timer callback. *)
Definition runs_no_callback (ev : EnvEvent) : bool :=
  match ev with
  | TimerFires _ => false
  | TaskSetsTimeout _ _ | TaskClearsTimeout _ | Allocates _ => true
  end.

(** ** The caller: transport set-up at start-up

    The fragment of the [Config] constructor that the investigation
    report quotes:
    [if (proxy) { try { setGlobalProxy(proxy) } catch (error) { ... } }
     else { enableHttp2() }].
    The body of the [catch] clause is elided there and is a parameter
    here; [proxy] is a string or [undefined], and the empty string is
    falsy. *)

Section Startup.

Context `{Platform}.

(** [try { body } catch (e) { handler e }] in [M]. *)
Definition try_catch {A} (body : M A) (handler : JsValue -> M A) : M A :=
  fun s =>
    match body s with
    | (Normal a, s1) => (Normal a, s1)
    | (Throw e, s1) => handler e s1
    end.

Definition Config_transport (proxy : option string) (on_error : JsValue -> M unit)
  : M unit :=
  match proxy with
  | Some (String _ _ as proxy) => try_catch (setGlobalProxy proxy) on_error
  | Some EmptyString | None => enableHttp2
  end.

End Startup.

(** ** Further test doubles

    A parser that also reads a bracketed IPv6 host, as [node:url] renders
    it, and a platform with the network of one's choice. *)

Definition is_hex_colon (c : ascii) : bool :=
  Double.is_digit c || in_range "a" "f" c || Ascii.eqb c ":".

Definition URL_new6 (url : string) : Completion URL :=
  let '(scheme, rest) := Double.span Double.is_lower url in
  match scheme, strip_prefix "://[" rest with
  | String _ _, Some rest =>
      let '(h, rest) := Double.span is_hex_colon rest in
      match h, rest with
      | String _ _, String "]" rest' =>
          Double.parse_tail scheme ("[" +:+ h +:+ "]") rest'
      | _, _ => Throw Double.invalid_url
      end
  | _, _ => Double.URL_new url
  end.

Definition double6 : Platform :=
  {| URL_new := URL_new6;
     fetch := Double.fetch;
     isNodeError := Double.isNodeError;
     getErrorMessage := Double.getErrorMessage;
     ProxyAgent_rejects := Double.ProxyAgent_rejects |}.

Definition scripted (net : string -> nat -> State -> Suspension) : Platform :=
  {| URL_new := Double.URL_new;
     fetch := net;
     isNodeError := Double.isNodeError;
     getErrorMessage := Double.getErrorMessage;
     ProxyAgent_rejects := Double.ProxyAgent_rejects |}.

(** A request that is rejected at once with the abort error of the
    start state, no timer having fired. *)
Definition aborted_at_once (url : string) (signal : nat) (s : State) : Suspension :=
  {| events := []; settled := Throw (VRef 1) |}.

(** The abort reason a [DOMException] is: its [code] is the number 20. *)
Definition dom_abort : JsObject :=
  {| obj_class := ClassDOMException;
     obj_props := {[ "name" := VStr "AbortError";
                     "message" := VStr "This operation was aborted";
                     "code" := VNum 20 ]} |}.

(** A request that never answers: the caller's timer fires, and the
    request is rejected with a [DOMException] allocated for the purpose. *)
Definition aborted_with_dom (url : string) (signal : nat) (s : State) : Suspension :=
  {| events := [TimerFires (Nat.pred (next_timer s)); Allocates dom_abort];
     settled := Throw (VRef (fresh (dom (heap s)))) |}.

(** A handler that returns. *)
Definition ignore_error (e : JsValue) : M unit := ret tt.

(** ** A proxy check that knows its schemes

    A stand-in for the check of undici's [ProxyAgent] constructor that,
    like it, refuses a URI that parses but whose scheme is neither http
    nor https. *)



Section ProxySyntax.

Context `{Platform}.


End ProxySyntax.

(** * Properties *)

(** ** The matcher on the shapes [PRIVATE_IP_RANGES] uses *)

Lemma strip_prefix_app p rest : strip_prefix p (p +:+ rest) = Some rest.
Proof.
  induction p as [|c p IH]; simpl; [reflexivity|].
  now rewrite Ascii.eqb_refl.
Qed.

Lemma strip_prefix_Some p s rest : strip_prefix p s = Some rest -> s = p +:+ rest.
Proof.
  revert s; induction p as [|c p IH]; intros s; simpl.
  - now intros [= ->].
  - destruct s as [|b s]; [discriminate|].
    destruct (Ascii.eqb c b) eqn:E; [|discriminate].
    apply Ascii.eqb_eq in E; subst b.
    intros Hs; now rewrite (IH _ Hs).
Qed.

(** A run of literal characters consumes exactly itself. *)
Lemma rmatch_lit p b s k :
  rmatch (lit p) b s k =
  match strip_prefix p s with
  | Some rest => k (match p with EmptyString => b | String _ _ => false end) rest
  | None => false
  end.
Proof.
  revert b s; induction p as [|c p IH]; intros b s; simpl; [reflexivity|].
  destruct s as [|x s]; [reflexivity|].
  rewrite (Ascii.eqb_sym x c).
  destruct (Ascii.eqb c x); simpl; [|reflexivity].
  rewrite IH. destruct (strip_prefix p s); [|reflexivity].
  now destruct p.
Qed.

(** A pattern that begins with [^] matches at index 0 or nowhere. *)
Lemma search_anchored_later r s : search (RSeq RStart r) false s = false.
Proof. induction s as [|c s IH]; simpl; [reflexivity | exact IH]. Qed.

Lemma test_anchored r s :
  test (RSeq RStart r) s = rmatch r true s (fun _ _ => true).
Proof.
  unfold test. destruct s as [|c s]; simpl.
  - now rewrite orb_false_r.
  - now rewrite search_anchored_later, orb_false_r.
Qed.

Lemma test_anchored_lit p s :
  test (RSeq RStart (lit p)) s = bool_decide (is_Some (strip_prefix p s)).
Proof.
  rewrite test_anchored, rmatch_lit.
  destruct (strip_prefix p s); [symmetry; apply bool_decide_eq_true; eauto|].
  symmetry; apply bool_decide_eq_false. now intros [? ?].
Qed.

Lemma test_anchored_lit_true p s :
  test (RSeq RStart (lit p)) s = true <-> exists rest, s = p +:+ rest.
Proof.
  rewrite test_anchored_lit, bool_decide_eq_true. split.
  - intros [rest Hr]. exists rest. now apply strip_prefix_Some.
  - intros [rest ->]. rewrite strip_prefix_app. eauto.
Qed.

(** [/^::1$/] accepts one subject. *)
Lemma test_loopback6 s :
  test (RSeq RStart (RSeq (lit "::1") REnd)) s = true <-> s = "::1".
Proof.
  rewrite test_anchored. cbn [rmatch]. rewrite rmatch_lit. split.
  - destruct (strip_prefix "::1" s) as [rest|] eqn:E; [|discriminate].
    apply strip_prefix_Some in E. subst s.
    destruct rest; [reflexivity | discriminate].
  - intros ->. reflexivity.
Qed.

Lemma in_range_digits lo hi c :
  in_range lo hi c = true ->
  exists n, (N_of_ascii lo <= n <= N_of_ascii hi)%N /\ c = ascii_of_N n.
Proof.
  unfold in_range. rewrite andb_true_iff, !N.leb_le. intros [Hlo Hhi].
  exists (N_of_ascii c). split; [lia|]. now rewrite ascii_N_embedding.
Qed.

Lemma second_octet_172_sound b s k :
  rmatch second_octet_172 b s k = true ->
  exists mid rest, In mid private_infix_172 /\ s = mid +:+ rest /\ k false rest = true.
Proof.
  unfold second_octet_172. cbn [rmatch].
  destruct s as [|c1 [|c2 rest]]; cbn.
  - discriminate.
  - rewrite !andb_false_r. discriminate.
  - rewrite !orb_true_iff, !andb_true_iff.
    intros [[H1 [H2 Hk]] | [[H1 [H2 Hk]] | [H1 [H2 Hk]]]];
      apply Ascii.eqb_eq in H1; subst c1;
      apply in_range_digits in H2; destruct H2 as [n [Hn ->]];
      cbn in Hn;
      (eexists (String _ (String (ascii_of_N n) EmptyString)), rest);
      (split; [|split; [reflexivity | exact Hk]]).
    + assert (n = 54 \/ n = 55 \/ n = 56 \/ n = 57)%N as Hc by lia.
      destruct Hc as [-> | [-> | [-> | ->]]]; cbn; tauto.
    + assert (n = 48 \/ n = 49 \/ n = 50 \/ n = 51 \/ n = 52 \/
              n = 53 \/ n = 54 \/ n = 55 \/ n = 56 \/ n = 57)%N as Hc by lia.
      destruct Hc as [-> | [-> | [-> | [-> | [-> | [-> | [-> | [-> | [-> | ->]]]]]]]]];
        cbn; tauto.
    + assert (n = 48 \/ n = 49)%N as Hc by lia.
      destruct Hc as [-> | ->]; cbn; tauto.
Qed.

Lemma test_172_true s :
  test (RSeq RStart (RSeq (lit "172.") (RSeq second_octet_172 (lit ".")))) s = true <->
  exists mid rest, In mid private_infix_172 /\ s = "172." +:+ mid +:+ "." +:+ rest.
Proof.
  rewrite test_anchored. cbn [rmatch]. rewrite rmatch_lit. split.
  - destruct (strip_prefix "172." s) as [s1|] eqn:E; [|discriminate].
    apply strip_prefix_Some in E. subst s.
    intros Hm. apply second_octet_172_sound in Hm.
    destruct Hm as [mid [s2 [Hin [-> Hk]]]].
    rewrite rmatch_lit in Hk.
    destruct (strip_prefix "." s2) as [rest|] eqn:E2; [|discriminate].
    apply strip_prefix_Some in E2. subst s2.
    now exists mid, rest.
  - intros [mid [rest [Hin ->]]].
    cbn in Hin.
    repeat (destruct Hin as [<- | Hin]; [reflexivity|]).
    contradiction.
Qed.

(** The seven patterns together: a subject matches one of them exactly
    when it has one of the six prefixes or is the IPv6 loopback. *)
Lemma private_ranges_true h :
  existsb (fun range => test range h) PRIVATE_IP_RANGES = true <->
  private_prefix h \/ h = "::1".
Proof.
  unfold PRIVATE_IP_RANGES. cbn [existsb].
  rewrite !orb_true_iff, !test_anchored_lit_true, test_172_true, test_loopback6.
  split.
  - intros [[r ->] | [[r ->] | [[m [r [Hm ->]]] | [[r ->] | [-> | [[r ->] | [[r ->] | [=]]]]]]]];
      auto using private_prefix.
  - intros [Hp | ->]; [|tauto].
    destruct Hp; eauto 10.
Qed.

Lemma decimal_16_31 b :
  (16 <= b <= 31)%N -> In (decimal b) private_infix_172.
Proof.
  intros Hb.
  assert (b = 16 \/ b = 17 \/ b = 18 \/ b = 19 \/ b = 20 \/ b = 21 \/ b = 22 \/
          b = 23 \/ b = 24 \/ b = 25 \/ b = 26 \/ b = 27 \/ b = 28 \/ b = 29 \/
          b = 30 \/ b = 31)%N as Hc by lia.
  repeat (destruct Hc as [-> | Hc]; [vm_compute; tauto|]).
  subst b; vm_compute; tauto.
Qed.

(** Every literal of the testable property has one of the prefixes. *)
Lemma literal_private_prefix h :
  literal_private h -> private_prefix h \/ h = "::1".
Proof.
  destruct 1 as [b c d _ _ _ | b c d _ _ _ | b c d Hb _ _ | c d _ _ | | rest | rest].
  - left. apply (pp_10 (decimal b +:+ "." +:+ decimal c +:+ "." +:+ decimal d)).
  - left. apply (pp_127 (decimal b +:+ "." +:+ decimal c +:+ "." +:+ decimal d)).
  - left. apply (pp_172 (decimal b) (decimal c +:+ "." +:+ decimal d)).
    now apply decimal_16_31.
  - left. apply (pp_192_168 (decimal c +:+ "." +:+ decimal d)).
  - now right.
  - left. constructor.
  - left. constructor.
Qed.

Section Classifier.

Context `{Platform}.

(** On a string that parses, the answer is the match of the host name. *)
Lemma isPrivateIp_parsed url u :
  URL_new url = Normal u ->
  isPrivateIp url =
  Normal (existsb (fun range => test range (hostname u)) PRIVATE_IP_RANGES).
Proof. intros Hu. unfold isPrivateIp. now rewrite Hu. Qed.

(** The classifier completes normally on every input. *)
Lemma isPrivateIp_total url : exists b, isPrivateIp url = Normal b.
Proof.
  unfold isPrivateIp. destruct (URL_new url); cbn; eauto.
Qed.

Lemma isPrivateIp_true_iff url u :
  URL_new url = Normal u ->
  isPrivateIp url = Normal true <->
  private_prefix (hostname u) \/ hostname u = "::1".
Proof.
  intros Hu. rewrite (isPrivateIp_parsed _ _ Hu). split.
  - intros [= Hb]. now apply private_ranges_true.
  - intros Hp. apply private_ranges_true in Hp. now rewrite Hp.
Qed.

(** C4. The dotted quads 10.x.x.x, 127.x.x.x, 172.16-31.x.x and
    192.168.x.x are classified private, and 8.8.8.8 and example.com are
    not. An IPv6 host, however, reaches the patterns in brackets, as
    [node:url] returns it: for the host names [[::1]], [[fc00:...]] and
    [[fe80:...]] the answer is false, where the patterns for ::1, fc00:
    and fe80: were meant to give true. *)
Theorem isPrivateIp_ipv6_literals_missed url u :
  URL_new url = Normal u ->
  (forall b c d,
      octet b -> octet c -> octet d ->
      hostname u = ipv4_literal 10 b c d \/
      hostname u = ipv4_literal 127 b c d \/
      ((16 <= b <= 31)%N /\ hostname u = ipv4_literal 172 b c d) \/
      hostname u = ipv4_literal 192 168 c d ->
      isPrivateIp url = Normal true) /\
  (hostname u = "8.8.8.8" \/ hostname u = "example.com" ->
   isPrivateIp url = Normal false) /\
  (forall rest,
      hostname u = "[::1]" \/
      hostname u = "[fc00:" +:+ rest \/
      hostname u = "[fe80:" +:+ rest ->
      isPrivateIp url = Normal false).
Proof.
  intros Hu. split; [|split].
  - intros b c d Hb Hc Hd Hh.
    apply (isPrivateIp_true_iff _ _ Hu), literal_private_prefix.
    destruct Hh as [-> | [-> | [[Hr ->] | ->]]]; now constructor.
  - rewrite (isPrivateIp_parsed _ _ Hu).
    intros [-> | ->]; reflexivity.
  - intros rest Hh. rewrite (isPrivateIp_parsed _ _ Hu).
    unfold PRIVATE_IP_RANGES. cbn [existsb]. rewrite !test_anchored.
    destruct Hh as [-> | [-> | ->]]; reflexivity.
Qed.

(** C5. On a string that does not parse as a URL the classifier
    answers false; the exception of the parser does not escape. *)
Theorem isPrivateIp_malformed url e :
  URL_new url = Throw e ->
  isPrivateIp url = Normal false.
Proof. intros Hu. unfold isPrivateIp. now rewrite Hu. Qed.

(** C10. The classification is by the textual prefix of the host name
    alone: a host name that begins with 10., 127., 192.168.,
    172.16. to 172.31., fc00: or fe80: is private whether or not it is
    an address literal (10.example.com is), and two URLs with the same
    host name get the same answer whatever their scheme, port, path
    and query. *)
Theorem isPrivateIp_textual_prefix url u :
  URL_new url = Normal u ->
  (private_prefix (hostname u) -> isPrivateIp url = Normal true) /\
  (hostname u = "10.example.com" -> isPrivateIp url = Normal true) /\
  (forall url' u',
      URL_new url' = Normal u' -> hostname u' = hostname u ->
      isPrivateIp url' = isPrivateIp url).
Proof.
  intros Hu. split; [|split].
  - intros Hp. apply (isPrivateIp_true_iff _ _ Hu). now left.
  - intros Hh. apply (isPrivateIp_true_iff _ _ Hu). left.
    rewrite Hh. apply (pp_10 "example.com").
  - intros url' u' Hu' Hh.
    now rewrite (isPrivateIp_parsed _ _ Hu), (isPrivateIp_parsed _ _ Hu'), Hh.
Qed.

End Classifier.

Lemma isPrivateIp_ipv6_literals_missed_witness :
  @isPrivateIp double6 "http://[::1]/" = Normal false /\
  @isPrivateIp double6 "http://[fc00::1]:8080/" = Normal false /\
  @isPrivateIp double6 "http://[fe80::1]/" = Normal false /\
  @isPrivateIp double6 "https://172.20.1.1:8080/x?y=1" = Normal true /\
  @isPrivateIp double6 "http://8.8.8.8/" = Normal false.
Proof.
  split; [|split; [|split; [|split]]].
  - refine (proj2 (proj2 (@isPrivateIp_ipv6_literals_missed double6 "http://[::1]/"
              {| protocol := "http:"; username := ""; password := "";
                 hostname := "[::1]"; port := ""; pathname := "/";
                 search_ := ""; hash := "" |} eq_refl)) "" _).
    left; reflexivity.
  - refine (proj2 (proj2 (@isPrivateIp_ipv6_literals_missed double6
              "http://[fc00::1]:8080/"
              {| protocol := "http:"; username := ""; password := "";
                 hostname := "[fc00::1]"; port := "8080"; pathname := "/";
                 search_ := ""; hash := "" |} eq_refl)) ":1]" _).
    right; left; reflexivity.
  - refine (proj2 (proj2 (@isPrivateIp_ipv6_literals_missed double6 "http://[fe80::1]/"
              {| protocol := "http:"; username := ""; password := "";
                 hostname := "[fe80::1]"; port := ""; pathname := "/";
                 search_ := ""; hash := "" |} eq_refl)) ":1]" _).
    right; right; reflexivity.
  - refine (proj1 (@isPrivateIp_ipv6_literals_missed double6
              "https://172.20.1.1:8080/x?y=1"
              {| protocol := "https:"; username := ""; password := "";
                 hostname := "172.20.1.1"; port := "8080"; pathname := "/x";
                 search_ := "?y=1"; hash := "" |} eq_refl) 20%N 1%N 1%N _ _ _ _);
      try (unfold octet; lia).
    right; right; left. split; [lia | reflexivity].
  - refine (proj1 (proj2 (@isPrivateIp_ipv6_literals_missed double6 "http://8.8.8.8/"
              {| protocol := "http:"; username := ""; password := "";
                 hostname := "8.8.8.8"; port := ""; pathname := "/";
                 search_ := ""; hash := "" |} eq_refl)) _).
    left; reflexivity.
Defined.

Lemma isPrivateIp_malformed_witness :
  @isPrivateIp double "not a url" = Normal false.
Proof.
  apply (@isPrivateIp_malformed double "not a url" Double.invalid_url).
  reflexivity.
Defined.

Lemma isPrivateIp_textual_prefix_witness :
  @isPrivateIp double "http://10.example.com/" = Normal true /\
  @isPrivateIp double "ftp://10.example.com:21/pub?list" =
  @isPrivateIp double "http://10.example.com/".
Proof.
  pose proof (@isPrivateIp_textual_prefix double "http://10.example.com/"
                {| protocol := "http:"; username := ""; password := "";
                   hostname := "10.example.com"; port := ""; pathname := "/";
                   search_ := ""; hash := "" |} eq_refl) as [_ [Hd Hs]].
  split.
  - apply Hd. reflexivity.
  - apply (Hs "ftp://10.example.com:21/pub?list"
              {| protocol := "ftp:"; username := ""; password := "";
                 hostname := "10.example.com"; port := "21"; pathname := "/pub";
                 search_ := "?list"; hash := "" |}); reflexivity.
Defined.

(** ** [FetchError] objects *)

Section Wrapper.

Context `{Platform}.

Lemma fresh_loc_unused (h : gmap loc JsObject) : h !! fresh (dom h) = None.
Proof. apply not_elem_of_dom, is_fresh. Qed.

Lemma new_FetchError_spec message code options s :
  exists l fe,
    new_FetchError message code options s
    = (Normal (VRef l), set_heap (<[l := fe]> (heap s)) s) /\
    heap s !! l = None /\
    obj_class fe = ClassFetchError /\
    obj_props fe !! "name" = Some (VStr "FetchError") /\
    obj_props fe !! "code" = Some code /\
    obj_props fe !! "message" = Some (VStr message) /\
    obj_props fe !! "cause" = options.
Proof.
  unfold new_FetchError, alloc.
  eexists _, _. split; [reflexivity|].
  split; [apply fresh_loc_unused|].
  cbn [obj_class obj_props].
  destruct options; repeat split; by simplify_map_eq.
Qed.

(** Clearing a timer leaves the heap alone and empties its slot. *)
Lemma clearTimeout_spec id s :
  clearTimeout id s = (Normal tt, snd (clearTimeout id s)) /\
  heap (snd (clearTimeout id s)) = heap s /\
  timers (snd (clearTimeout id s)) = delete id (timers s).
Proof. repeat split. Qed.

(** The call, stage by stage. *)
Lemma fetchWithTimeout_stages url timeout s :
  fetchWithTimeout url timeout s =
  let s2 := resumed url timeout s in
  let timeoutId := next_timer s in
  match settled (pending url timeout s) with
  | Normal response => (Normal response, snd (clearTimeout timeoutId s2))
  | Throw error =>
      let '(c, s3) :=
        (if is_abort_error (heap s2) error then
           bind (new_FetchError
                   ("Request timed out after " +:+ number_to_string timeout +:+ "ms")
                   (VStr "ETIMEDOUT") None) throw
         else
           bind (new_FetchError (getErrorMessage (heap s2) error) VUndefined
                   (Some error)) throw) s2 in
      (c, snd (clearTimeout timeoutId s3))
  end.
Proof.
  cbv zeta.
  unfold fetchWithTimeout, try_catch_finally.
  unfold bind at 1 2 3. unfold await, ret.
  cbn [new_AbortController setTimeout].
  fold (controller_of s).
  change (set_timers _ _ (set_controllers _ s)) with (suspended timeout s).
  fold (pending url timeout s). fold (resumed url timeout s).
  destruct (settled (pending url timeout s)) as [r|e].
  - reflexivity.
  - unfold bind at 1, get_heap.
    destruct (is_abort_error (heap (resumed url timeout s)) e); reflexivity.
Qed.

End Wrapper.

(** ** The rendering of the timeout *)

Lemma to_int_not_nil z :
  Z.to_int z <> Decimal.Pos Decimal.Nil /\ Z.to_int z <> Decimal.Neg Decimal.Nil.
Proof.
  destruct z as [|p|p]; cbn; split; try discriminate;
    intros [= Hp]; now apply (Unsigned.to_uint_nonnil p).
Qed.

(** Different numbers are spelled differently. *)
Lemma number_to_string_inj a b :
  number_to_string a = number_to_string b -> a = b.
Proof.
  unfold number_to_string. intros E.
  apply DecimalZ.to_int_inj.
  destruct (to_int_not_nil a) as [Ha1 Ha2], (to_int_not_nil b) as [Hb1 Hb2].
  pose proof (NilZero.isi _ Ha1 Ha2) as Ia.
  pose proof (NilZero.isi _ Hb1 Hb2) as Ib.
  rewrite E in Ia. congruence.
Qed.

(** ** The pending timers under the event loop *)

Lemma env_step_quiet_timers s ev :
  quiet ev = true -> timers (env_step s ev) ⊆ timers s.
Proof.
  destruct ev as [id|cb ms|id|o]; cbn; try discriminate; intros _.
  - destruct (timers s !! id) as [t|]; [|reflexivity].
    destruct (callback t). cbn. apply delete_subseteq.
  - apply delete_subseteq.
  - reflexivity.
Qed.

Lemma env_run_quiet_timers evs s :
  forallb quiet evs = true -> timers (env_run evs s) ⊆ timers s.
Proof.
  revert s. induction evs as [|ev evs IH]; intros s; cbn; [reflexivity|].
  rewrite andb_true_iff. intros [Hq Hqs].
  etransitivity; [apply IH, Hqs | now apply env_step_quiet_timers].
Qed.

(** ** [fetchWithTimeout] *)

Section TimeoutGuard.

Context `{Platform}.

Lemma includes_middle pre needle post : includes needle (pre +:+ needle +:+ post).
Proof. now exists pre, post. Qed.

(** Both throwing branches of the handler: a new [FetchError] is
    stored in an unused location of the heap and thrown. *)
Lemma throw_new_FetchError message code options s :
  exists l fe,
    bind (new_FetchError message code options) (@throw JsValue) s
    = (Throw (VRef l), set_heap (<[l := fe]> (heap s)) s) /\
    heap s !! l = None /\
    obj_class fe = ClassFetchError /\
    obj_props fe !! "name" = Some (VStr "FetchError") /\
    obj_props fe !! "code" = Some code /\
    obj_props fe !! "message" = Some (VStr message) /\
    obj_props fe !! "cause" = options.
Proof.
  destruct (new_FetchError_spec message code options s) as [l [fe [E P]]].
  exists l, fe. split; [|exact P].
  unfold bind. now rewrite E.
Qed.

(** What the call does with a rejection of the request. *)
Lemma fetchWithTimeout_rejected url timeout s e :
  settled (pending url timeout s) = Throw e ->
  let s2 := resumed url timeout s in
  let aborted := is_abort_error (heap s2) e in
  exists l fe,
    fetchWithTimeout url timeout s
    = (Throw (VRef l),
       snd (clearTimeout (next_timer s) (set_heap (<[l := fe]> (heap s2)) s2))) /\
    heap s2 !! l = None /\
    obj_class fe = ClassFetchError /\
    obj_props fe !! "name" = Some (VStr "FetchError") /\
    obj_props fe !! "code"
    = Some (if aborted then VStr "ETIMEDOUT" else VUndefined) /\
    obj_props fe !! "message"
    = Some (VStr (if aborted
                  then "Request timed out after " +:+ number_to_string timeout +:+ "ms"
                  else getErrorMessage (heap s2) e)) /\
    obj_props fe !! "cause" = (if aborted then None else Some e).
Proof.
  intros He s2 aborted. rewrite fetchWithTimeout_stages, He. cbv zeta.
  fold s2. fold aborted. destruct aborted.
  - destruct (throw_new_FetchError
                ("Request timed out after " +:+ number_to_string timeout +:+ "ms")
                (VStr "ETIMEDOUT") None s2) as [l [fe [E P]]].
    exists l, fe. rewrite E. split; [reflexivity | exact P].
  - destruct (throw_new_FetchError (getErrorMessage (heap s2) e) VUndefined
                (Some e) s2) as [l [fe [E P]]].
    exists l, fe. rewrite E. split; [reflexivity | exact P].
Qed.


(** C1, as amended. When the request fails with an error that is not
    an abort error, the call fails with a new [FetchError] whose [cause]
    is that very value; its own [code] is undefined, its message is the
    one [getErrorMessage] gives for the error, and the heap is only
    extended, so that the error and its code are read unchanged through
    [cause]. *)
Theorem fetchWithTimeout_wraps_failure url timeout s e :
  settled (pending url timeout s) = Throw e ->
  is_abort_error (heap (resumed url timeout s)) e = false ->
  exists l fe s',
    fetchWithTimeout url timeout s = (Throw (VRef l), s') /\
    heap (resumed url timeout s) !! l = None /\
    heap s' = <[l := fe]> (heap (resumed url timeout s)) /\
    obj_class fe = ClassFetchError /\
    obj_props fe !! "cause" = Some e /\
    obj_props fe !! "code" = Some VUndefined /\
    obj_props fe !! "message"
    = Some (VStr (getErrorMessage (heap (resumed url timeout s)) e)) /\
    get_prop (heap s') (VRef l) "cause" = e /\
    (forall l0 o, e = VRef l0 -> heap (resumed url timeout s) !! l0 = Some o ->
                  heap s' !! l0 = Some o /\
                  get_prop (heap s') (get_prop (heap s') (VRef l) "cause") "code"
                  = get_prop (heap (resumed url timeout s)) e "code").
Proof.
  intros He Hna.
  destruct (fetchWithTimeout_rejected url timeout s e He)
    as [l [fe [E [Hl [Hc [_ [Hcode [Hmsg Hcause]]]]]]]].
  rewrite Hna in Hcode, Hmsg, Hcause.
  eexists l, fe, _. split; [exact E|].
  cbn [clearTimeout snd set_timers set_heap heap].
  assert (get_prop (<[l := fe]> (heap (resumed url timeout s))) (VRef l) "cause" = e)
    as Hget.
  { unfold get_prop. now rewrite lookup_insert_eq, Hcause. }
  repeat split; try assumption.
  - rewrite lookup_insert_ne; [assumption | congruence].
  - rewrite Hget. match goal with Hr : e = VRef _ |- _ => rewrite Hr end.
    unfold get_prop. rewrite lookup_insert_ne by congruence. reflexivity.
Qed.

(** The abort branch. When the request is rejected with what line 52
    takes for the abort, a Node error coded ABORT_ERR, the call fails
    with the timeout [FetchError], whose message spells the configured
    timeout. *)
Lemma fetchWithTimeout_abort_branch url timeout s reason :
  is_safe_integer timeout = true ->
  settled (pending url timeout s) = Throw reason ->
  is_abort_error (heap (resumed url timeout s)) reason = true ->
  exists l fe s',
    fetchWithTimeout url timeout s = (Throw (VRef l), s') /\
    heap s' !! l = Some fe /\
    obj_class fe = ClassFetchError /\
    obj_props fe !! "code" = Some (VStr "ETIMEDOUT") /\
    obj_props fe !! "message"
    = Some (VStr ("Request timed out after " +:+ number_to_string timeout +:+ "ms")) /\
    includes (number_to_string timeout)
             ("Request timed out after " +:+ number_to_string timeout +:+ "ms") /\
    (forall t, number_to_string t = number_to_string timeout -> t = timeout).
Proof.
  intros _ He Ha.
  destruct (fetchWithTimeout_rejected url timeout s reason He)
    as [l [fe [E [Hl [Hc [_ [Hcode [Hmsg _]]]]]]]].
  rewrite Ha in Hcode, Hmsg.
  eexists l, fe, _. split; [exact E|].
  cbn [clearTimeout snd set_timers set_heap heap].
  rewrite lookup_insert_eq.
  repeat split; try assumption.
  - apply includes_middle.
  - intros. now apply number_to_string_inj.
Qed.

(** The exit of the call removes its handle from the pending timers. *)
Lemma fetchWithTimeout_exit_timers url timeout s :
  timers (snd (fetchWithTimeout url timeout s))
  = delete (next_timer s) (timers (resumed url timeout s)).
Proof.
  rewrite fetchWithTimeout_stages. cbv zeta.
  destruct (settled (pending url timeout s)) as [r|e] eqn:He; [reflexivity|].
  destruct (is_abort_error (heap (resumed url timeout s)) e).
  - destruct (throw_new_FetchError
                ("Request timed out after " +:+ number_to_string timeout +:+ "ms")
                (VStr "ETIMEDOUT") None (resumed url timeout s)) as [l [fe [E _]]].
    now rewrite E.
  - destruct (throw_new_FetchError
                (getErrorMessage (heap (resumed url timeout s)) e) VUndefined
                (Some e) (resumed url timeout s)) as [l [fe [E _]]].
    now rewrite E.
Qed.

(** When no other task arms a timer during the wait, the timers pending
    after the call were all pending before it: calls do not accumulate
    timers. *)
Lemma fetchWithTimeout_no_leak url timeout s :
  forallb quiet (events (pending url timeout s)) = true ->
  timers (snd (fetchWithTimeout url timeout s)) ⊆ timers s.
Proof.
  intros Hq. rewrite fetchWithTimeout_exit_timers.
  etransitivity; [apply delete_mono, (env_run_quiet_timers _ _ Hq)|].
  unfold suspended. cbn [setTimeout new_AbortController snd set_timers timers
                          set_controllers].
  rewrite delete_insert_eq. apply delete_subseteq.
Qed.

(** C3. The timer the call arms before it suspends is not pending when
    the call has returned or failed, however the request settled and
    whatever happened meanwhile; the exit of the call removes that
    handle from the pending timers and nothing else. *)
Theorem fetchWithTimeout_clears_timer url timeout s :
  timers (suspended timeout s) !! next_timer s
  = Some {| callback := AbortCallback (controller_of s); delay := timeout |} /\
  timers (snd (fetchWithTimeout url timeout s))
  = delete (next_timer s) (timers (resumed url timeout s)) /\
  timers (snd (fetchWithTimeout url timeout s)) !! next_timer s = None.
Proof.
  split; [apply lookup_insert_eq|].
  split; [apply fetchWithTimeout_exit_timers|].
  rewrite fetchWithTimeout_exit_timers. apply lookup_delete_eq.
Qed.


End TimeoutGuard.

Lemma fetchWithTimeout_wraps_failure_witness :
  exists l fe s',
    @fetchWithTimeout double "http://example.com/reset" 1000 Double.start
    = (Throw (VRef l), s') /\
    heap s' !! l = Some fe /\
    obj_props fe !! "cause" = Some (VRef 0) /\
    get_prop (heap s') (VRef 0) "code" = VStr "ECONNRESET".
Proof.
  destruct (@fetchWithTimeout_wraps_failure double "http://example.com/reset" 1000
              Double.start (VRef 0) eq_refl eq_refl)
    as [l [fe [s' [E [_ [Hh [_ [Hcause [_ [_ [_ Hkeep]]]]]]]]]]].
  exists l, fe, s'. split; [exact E|].
  split; [rewrite Hh; apply lookup_insert_eq|].
  split; [exact Hcause|].
  destruct (Hkeep 0 Double.reset_error eq_refl eq_refl) as [Hl0 _].
  unfold get_prop. rewrite Hl0. reflexivity.
Defined.

(** The wrapper of a connection reset does not carry the code of the
    reset in its own [code] field. *)
Lemma fetchWithTimeout_code_not_forwarded :
  ~ @forwards_code double "http://example.com/reset" 1000 Double.start.
Proof.
  intros Hf.
  specialize (Hf (VRef 0) "ECONNRESET" 3
                 (snd (@fetchWithTimeout double "http://example.com/reset" 1000
                         Double.start))
                 eq_refl eq_refl eq_refl).
  assert (@fetchWithTimeout double "http://example.com/reset" 1000 Double.start
          = (Throw (VRef 3),
             snd (@fetchWithTimeout double "http://example.com/reset" 1000
                    Double.start))) as E by (vm_compute; reflexivity).
  specialize (Hf E). vm_compute in Hf. discriminate Hf.
Qed.


(** ** [enableHttp2] and [setGlobalProxy] *)

Section Configurator.

Context `{Platform}.

Lemma enableHttp2_spec s :
  enableHttp2 s
  = (Normal tt,
     set_globalDispatcher (Some (Agent {| uri := None; allowH2 := true |})) s).
Proof. reflexivity. Qed.

Lemma setGlobalProxy_accepted proxy s :
  ProxyAgent_rejects {| uri := Some proxy; allowH2 := true |} = None ->
  setGlobalProxy proxy s
  = (Normal tt,
     set_globalDispatcher
       (Some (ProxyAgent {| uri := Some proxy; allowH2 := true |})) s).
Proof.
  intros Hok. unfold setGlobalProxy, new_ProxyAgent, bind. now rewrite Hok.
Qed.

Lemma setGlobalProxy_rejected proxy e s :
  ProxyAgent_rejects {| uri := Some proxy; allowH2 := true |} = Some e ->
  setGlobalProxy proxy s = (Throw e, s).
Proof.
  intros Hno. unfold setGlobalProxy, new_ProxyAgent, bind. now rewrite Hno.
Qed.

(** A call whose constructor accepts installs its dispatcher and
    returns; any other call throws and leaves the state as it was. *)
Lemma run_call_accepts c s :
  accepts c = true ->
  run_call c s = (Normal tt, set_globalDispatcher (Some (dispatcher_of c)) s).
Proof.
  destruct c as [|proxy]; cbn [accepts run_call dispatcher_of].
  - intros _. apply enableHttp2_spec.
  - destruct (ProxyAgent_rejects _) eqn:E; [discriminate|].
    intros _. now apply setGlobalProxy_accepted.
Qed.

Lemma run_call_refuses c s :
  accepts c = false ->
  exists e, run_call c s = (Throw e, s).
Proof.
  destruct c as [|proxy]; cbn [accepts run_call]; [discriminate|].
  destruct (ProxyAgent_rejects _) as [e|] eqn:E; [|discriminate].
  intros _. exists e. now apply setGlobalProxy_rejected.
Qed.

Lemma run_call_dispatcher c s :
  globalDispatcher (snd (run_call c s))
  = if accepts c then Some (dispatcher_of c) else globalDispatcher s.
Proof.
  destruct (accepts c) eqn:E.
  - now rewrite (run_call_accepts _ _ E).
  - destruct (run_call_refuses _ s E) as [e ->]. reflexivity.
Qed.

Lemma run_calls_effective cs s :
  globalDispatcher (run_calls cs s) = effective cs (globalDispatcher s).
Proof.
  revert s. induction cs as [|c cs IH]; intros s; [reflexivity|].
  unfold run_calls, effective in *. cbn [fold_left].
  now rewrite IH, run_call_dispatcher.
Qed.

Lemma run_calls_app cs1 cs2 s :
  run_calls (cs1 ++ cs2) s = run_calls cs2 (run_calls cs1 s).
Proof. apply fold_left_app. Qed.



(** C8, as amended. After any sequence of calls, a last call whose
    constructor accepts its argument returns normally and alone decides
    the global dispatcher, whatever the earlier calls and the initial
    state were; a last call that is refused throws and leaves the state
    of the earlier calls; and making any call twice in a row leaves the
    state that making it once leaves. *)
Theorem last_accepted_call_decides cs c s :
  (accepts c = true ->
   fst (run_call c (run_calls cs s)) = Normal tt /\
   globalDispatcher (run_calls (cs ++ [c]) s) = Some (dispatcher_of c)) /\
  (accepts c = false ->
   (exists e, run_call c (run_calls cs s) = (Throw e, run_calls cs s)) /\
   run_calls (cs ++ [c]) s = run_calls cs s) /\
  run_calls (cs ++ [c; c]) s = run_calls (cs ++ [c]) s.
Proof.
  rewrite !run_calls_app. set (s1 := run_calls cs s).
  change (run_calls [c] s1) with (snd (run_call c s1)).
  change (run_calls [c; c] s1) with (snd (run_call c (snd (run_call c s1)))).
  split; [|split].
  - intros Ha. now rewrite (run_call_accepts _ _ Ha).
  - intros Hr. destruct (run_call_refuses _ s1 Hr) as [e He].
    split; [now exists e | now rewrite He].
  - destruct (accepts c) eqn:E.
    + now rewrite !(run_call_accepts _ _ E).
    + destruct (run_call_refuses _ s1 E) as [e E1]. rewrite E1. cbn [snd].
      now rewrite E1.
Qed.

End Configurator.




(** A refused last call does not decide the configuration: the earlier
    calls do. *)
Lemma refused_last_call_does_not_decide :
  ~ @last_call_decides double.
Proof.
  intros Hd.
  specialize (Hd [EnableHttp2] [SetGlobalProxy "http://proxy.local:8080"]
                 (SetGlobalProxy "not a uri") Double.start Double.start).
  vm_compute in Hd. discriminate Hd.
Qed.

Lemma last_accepted_call_decides_witness :
  globalDispatcher
    (@run_calls double [SetGlobalProxy "http://proxy.local:8080"; EnableHttp2]
       Double.start)
  = Some (Agent {| uri := None; allowH2 := true |}) /\
  (exists e,
      @run_call double (SetGlobalProxy "not a uri")
        (@run_calls double [EnableHttp2] Double.start)
      = (Throw e, @run_calls double [EnableHttp2] Double.start)) /\
  @run_calls double [EnableHttp2; SetGlobalProxy "not a uri"] Double.start
  = @run_calls double [EnableHttp2] Double.start.
Proof.
  split.
  - apply (proj1 (@last_accepted_call_decides double
                    [SetGlobalProxy "http://proxy.local:8080"] EnableHttp2
                    Double.start)).
    reflexivity.
  - apply (proj1 (proj2 (@last_accepted_call_decides double [EnableHttp2]
                           (SetGlobalProxy "not a uri") Double.start))).
    reflexivity.
Defined.

(** ** The three exits of a call, on the test double *)

Example answered_call :
  let r := @fetchWithTimeout double "http://example.com/" 50 Double.start in
  fst r = Normal (VRef 2) /\ timers (snd r) = ∅ /\ controllers (snd r) !! 0 = Some false.
Proof. vm_compute. repeat split; reflexivity. Qed.

Example reset_call :
  let r := @fetchWithTimeout double "http://example.com/reset" 50 Double.start in
  fst r = Throw (VRef 3) /\ timers (snd r) = ∅ /\
  get_prop (heap (snd r)) (VRef 3) "message" = VStr "read ECONNRESET" /\
  get_prop (heap (snd r)) (VRef 3) "cause" = VRef 0 /\
  get_prop (heap (snd r)) (VRef 3) "code" = VUndefined.
Proof. vm_compute. repeat split; reflexivity. Qed.

Example hanging_call :
  let r := @fetchWithTimeout double "http://example.com/hang" 50 Double.start in
  fst r = Throw (VRef 3) /\ timers (snd r) = ∅ /\
  controllers (snd r) !! 0 = Some true /\
  get_prop (heap (snd r)) (VRef 3) "message" = VStr "Request timed out after 50ms" /\
  get_prop (heap (snd r)) (VRef 3) "code" = VStr "ETIMEDOUT" /\
  get_prop (heap (snd r)) (VRef 3) "cause" = VUndefined.
Proof. vm_compute. repeat split; reflexivity. Qed.

(** * Further properties *)

(** ** The classifier, exactly *)

(** On a host name that begins with ["172."], only the pattern for
    [172.16.0.0/12] can match. *)
Lemma private_ranges_172 tail :
  existsb (fun range => test range ("172." +:+ tail)) PRIVATE_IP_RANGES
  = rmatch (RSeq second_octet_172 (lit ".")) false tail (fun _ _ => true).
Proof.
  unfold PRIVATE_IP_RANGES. cbn [existsb]. rewrite !test_anchored.
  cbn. now rewrite orb_false_r.
Qed.

Lemma private_ranges_172_octet n rest :
  n < 256 ->
  rmatch (RSeq second_octet_172 (lit ".")) false
         (decimal (N.of_nat n) +:+ "." +:+ rest) (fun _ _ => true)
  = ((16 <=? N.of_nat n)%N && (N.of_nat n <=? 31)%N).
Proof.
  intros Hn.
  do 256 (destruct n as [|n]; [reflexivity|]).
  lia.
Qed.

Section ClassifierExactly.

Context `{Platform}.

(** X1. On a URL that parses, the answer is true exactly when the host
    name begins with one of the six prefixes or is the string ::1, and
    false in every other case. *)
Theorem isPrivateIp_exact url u :
  URL_new url = Normal u ->
  (isPrivateIp url = Normal true <->
   private_prefix (hostname u) \/ hostname u = "::1") /\
  (isPrivateIp url = Normal false <->
   ~ (private_prefix (hostname u) \/ hostname u = "::1")).
Proof.
  intros Hu. split; [now apply isPrivateIp_true_iff|].
  rewrite <- (isPrivateIp_true_iff _ _ Hu), (isPrivateIp_parsed _ _ Hu).
  destruct (existsb _ _); split; congruence.
Qed.

(** X2. For a host name 172.b.(...) with b an octet, the answer is true
    exactly when 16 <= b <= 31: 172.15 and 172.32 are public. *)
Theorem isPrivateIp_172_bounds url u b rest :
  URL_new url = Normal u ->
  octet b ->
  hostname u = "172." +:+ decimal b +:+ "." +:+ rest ->
  isPrivateIp url = Normal ((16 <=? b)%N && (b <=? 31)%N).
Proof.
  unfold octet. intros Hu Hb Hh.
  rewrite (isPrivateIp_parsed _ _ Hu), Hh, private_ranges_172.
  rewrite <- (N2Nat.id b).
  rewrite private_ranges_172_octet; [reflexivity | lia].
Qed.

(** X3. A host name in brackets, which is how [node:url] renders an
    IPv6 address, is never private; and ::1 counts only as the whole
    host name, not as the beginning of a longer one. *)
Theorem isPrivateIp_brackets_and_loopback url u rest :
  URL_new url = Normal u ->
  (hostname u = "[" +:+ rest -> isPrivateIp url = Normal false) /\
  (rest <> "" -> hostname u = "::1" +:+ rest -> isPrivateIp url = Normal false).
Proof.
  intros Hu. rewrite (isPrivateIp_parsed _ _ Hu). split.
  - intros ->. unfold PRIVATE_IP_RANGES. cbn [existsb].
    rewrite !test_anchored. reflexivity.
  - intros Hr ->. unfold PRIVATE_IP_RANGES. cbn [existsb].
    rewrite !test_anchored. destruct rest; [contradiction|]. reflexivity.
Qed.

End ClassifierExactly.

Lemma isPrivateIp_exact_witness :
  @isPrivateIp double "http://192.168.1.1/admin" = Normal true /\
  @isPrivateIp double "http://110.0.0.1/" = Normal false.
Proof.
  split.
  - apply (proj1 (@isPrivateIp_exact double "http://192.168.1.1/admin"
                    {| protocol := "http:"; username := ""; password := "";
                       hostname := "192.168.1.1"; port := ""; pathname := "/admin";
                       search_ := ""; hash := "" |} eq_refl)).
    left. apply (pp_192_168 "1.1").
  - apply (proj2 (@isPrivateIp_exact double "http://110.0.0.1/"
                    {| protocol := "http:"; username := ""; password := "";
                       hostname := "110.0.0.1"; port := ""; pathname := "/";
                       search_ := ""; hash := "" |} eq_refl)).
    intros [Hp | Hl]; [inversion Hp | discriminate Hl].
Defined.

Lemma isPrivateIp_172_bounds_witness :
  @isPrivateIp double "http://172.32.0.1/" = Normal false /\
  @isPrivateIp double "http://172.31.255.255/" = Normal true.
Proof.
  split.
  - apply (@isPrivateIp_172_bounds double "http://172.32.0.1/"
             {| protocol := "http:"; username := ""; password := "";
                hostname := "172.32.0.1"; port := ""; pathname := "/";
                search_ := ""; hash := "" |} 32 "0.1" eq_refl);
      [unfold octet; lia | reflexivity].
  - apply (@isPrivateIp_172_bounds double "http://172.31.255.255/"
             {| protocol := "http:"; username := ""; password := "";
                hostname := "172.31.255.255"; port := ""; pathname := "/";
                search_ := ""; hash := "" |} 31 "255.255" eq_refl);
      [unfold octet; lia | reflexivity].
Defined.

Lemma isPrivateIp_brackets_and_loopback_witness :
  @isPrivateIp double6 "http://[::1]:8080/" = Normal false /\
  @isPrivateIp double6 "http://[fc00::1]/" = Normal false.
Proof.
  split.
  - apply (proj1 (@isPrivateIp_brackets_and_loopback double6 "http://[::1]:8080/"
                    {| protocol := "http:"; username := ""; password := "";
                       hostname := "[::1]"; port := "8080"; pathname := "/";
                       search_ := ""; hash := "" |} "::1]" eq_refl)).
    reflexivity.
  - apply (proj1 (@isPrivateIp_brackets_and_loopback double6 "http://[fc00::1]/"
                    {| protocol := "http:"; username := ""; password := "";
                       hostname := "[fc00::1]"; port := ""; pathname := "/";
                       search_ := ""; hash := "" |} "fc00::1]" eq_refl)).
    reflexivity.
Defined.

(** ** The timeout guard, beyond its timer *)

Lemma env_step_controller_aborted s ev c :
  controllers s !! c = Some true -> controllers (env_step s ev) !! c = Some true.
Proof.
  intros Hc. destruct ev as [id|cb ms|id|o]; cbn; try assumption.
  destruct (timers s !! id) as [t|]; [|assumption].
  destruct (callback t) as [c']. cbn.
  destruct (decide (c' = c)) as [->|Hne].
  - apply lookup_insert_eq.
  - now rewrite lookup_insert_ne.
Qed.

Lemma env_run_controller_aborted evs s c :
  controllers s !! c = Some true -> controllers (env_run evs s) !! c = Some true.
Proof.
  revert s. induction evs as [|ev evs IH]; intros s Hc; cbn; [assumption|].
  now apply IH, env_step_controller_aborted.
Qed.

Lemma env_run_no_callback evs s :
  forallb runs_no_callback evs = true -> controllers (env_run evs s) = controllers s.
Proof.
  revert s. induction evs as [|ev evs IH]; intros s; cbn; [reflexivity|].
  rewrite andb_true_iff. intros [Hq Hqs]. rewrite (IH _ Hqs).
  destruct ev; cbn in *; [discriminate | reflexivity ..].
Qed.

(** A timer that nothing takes away stays pending, under its handle. *)
Lemma env_run_keeps evs s id t :
  id < next_timer s -> timers s !! id = Some t ->
  forallb (keeps id) evs = true ->
  timers (env_run evs s) !! id = Some t /\ id < next_timer (env_run evs s).
Proof.
  revert s. induction evs as [|ev evs IH]; intros s Hlt Ht; cbn; [now split|].
  rewrite andb_true_iff. intros [Hk Hks].
  apply IH; [| |exact Hks]; clear IH Hks.
  - destruct ev as [i|cb ms|i|o]; cbn; try lia.
    destruct (timers s !! i) as [t'|]; [|assumption].
    now destruct (callback t').
  - destruct ev as [i|cb ms|i|o]; cbn in *.
    + apply negb_true_iff, Nat.eqb_neq in Hk.
      destruct (timers s !! i) as [t'|]; [|assumption].
      destruct (callback t'). cbn. now rewrite lookup_delete_ne.
    + rewrite lookup_insert_ne; [assumption | lia].
    + apply negb_true_iff, Nat.eqb_neq in Hk. now rewrite lookup_delete_ne.
    + assumption.
Qed.

Lemma env_step_next_timer s ev : next_timer s <= next_timer (env_step s ev).
Proof.
  destruct ev as [i|cb ms|i|o]; cbn; try lia.
  destruct (timers s !! i) as [t|]; [|lia]. destruct (callback t); cbn; lia.
Qed.

Lemma env_step_timers_wf s ev : timers_wf s -> timers_wf (env_step s ev).
Proof.
  unfold timers_wf. intros Hwf id.
  destruct ev as [i|cb ms|i|o]; cbn.
  - destruct (timers s !! i) as [t|] eqn:E; [|apply Hwf].
    destruct (callback t); cbn. rewrite lookup_delete_is_Some.
    intros [_ Hs]. now apply Hwf.
  - rewrite lookup_insert_is_Some. intros [<- | [_ Hs]]; [lia|].
    specialize (Hwf _ Hs). lia.
  - rewrite lookup_delete_is_Some. intros [_ Hs]. now apply Hwf.
  - apply Hwf.
Qed.

Lemma env_run_timers_wf evs s :
  timers_wf s ->
  timers_wf (env_run evs s) /\ next_timer s <= next_timer (env_run evs s).
Proof.
  revert s. induction evs as [|ev evs IH]; intros s Hwf; [now split|].
  change (env_run (ev :: evs) s) with (env_run evs (env_step s ev)).
  destruct (IH _ (env_step_timers_wf s ev Hwf)) as [Hw Hn].
  split; [exact Hw|]. pose proof (env_step_next_timer s ev). lia.
Qed.

Section TimeoutGuardMore.

Context `{Platform}.

(** What the exit of the call leaves of the state in which it resumed. *)
Lemma fetchWithTimeout_exit_state url timeout s :
  controllers (snd (fetchWithTimeout url timeout s))
  = controllers (resumed url timeout s) /\
  next_timer (snd (fetchWithTimeout url timeout s))
  = next_timer (resumed url timeout s) /\
  globalDispatcher (snd (fetchWithTimeout url timeout s))
  = globalDispatcher (resumed url timeout s).
Proof.
  rewrite fetchWithTimeout_stages. cbv zeta.
  destruct (settled (pending url timeout s)) as [r|e] eqn:He; [now repeat split|].
  destruct (is_abort_error (heap (resumed url timeout s)) e).
  - destruct (throw_new_FetchError
                ("Request timed out after " +:+ number_to_string timeout +:+ "ms")
                (VStr "ETIMEDOUT") None (resumed url timeout s)) as [l [fe [E _]]].
    rewrite E. now repeat split.
  - destruct (throw_new_FetchError
                (getErrorMessage (heap (resumed url timeout s)) e) VUndefined
                (Some e) (resumed url timeout s)) as [l [fe [E _]]].
    rewrite E. now repeat split.
Qed.

(** X4. The call returns a response exactly when the request was
    fulfilled, and then it returns that very response: a failure is never
    turned into a response, nor a response into a failure. *)
Theorem fetchWithTimeout_returns_iff url timeout s r :
  fst (fetchWithTimeout url timeout s) = Normal r <->
  settled (pending url timeout s) = Normal r.
Proof.
  destruct (settled (pending url timeout s)) as [r'|e] eqn:He.
  - rewrite fetchWithTimeout_stages, He. reflexivity.
  - destruct (fetchWithTimeout_rejected url timeout s e He) as [l [fe [E _]]].
    rewrite E. cbn. split; discriminate.
Qed.


(** X6. The timeout is recognised by the error alone. A request that is
    rejected at once with a Node error coded ABORT_ERR, before any event
    and so before the timer fires, is reported as timed out after the
    configured time (a safe integer, spelled in decimal); the controller
    of the call was never aborted, and the error itself is dropped: the
    [FetchError] has no cause. *)
Theorem fetchWithTimeout_abort_without_timer url timeout s e :
  is_safe_integer timeout = true ->
  events (pending url timeout s) = [] ->
  settled (pending url timeout s) = Throw e ->
  is_abort_error (heap s) e = true ->
  exists l fe s',
    fetchWithTimeout url timeout s = (Throw (VRef l), s') /\
    heap s' !! l = Some fe /\
    obj_props fe !! "code" = Some (VStr "ETIMEDOUT") /\
    obj_props fe !! "message"
    = Some (VStr ("Request timed out after " +:+ number_to_string timeout +:+ "ms")) /\
    obj_props fe !! "cause" = None /\
    controllers s' !! controller_of s = Some false.
Proof.
  intros _ Hev He Ha.
  assert (resumed url timeout s = suspended timeout s) as Hr.
  { unfold resumed. now rewrite Hev. }
  destruct (fetchWithTimeout_rejected url timeout s e He)
    as [l [fe [E [Hl [_ [_ [Hcode [Hmsg Hcause]]]]]]]].
  rewrite Hr in Hcode, Hmsg, Hcause.
  change (heap (suspended timeout s)) with (heap s) in Hcode, Hmsg, Hcause.
  rewrite Ha in Hcode, Hmsg, Hcause.
  eexists l, fe, _. split; [exact E|].
  cbn [clearTimeout snd set_timers set_heap heap controllers].
  rewrite lookup_insert_eq, Hr.
  repeat split; try assumption.
  apply lookup_insert_eq.
Qed.

(** X7. Conversely, when the timer of the call does fire but the
    rejection carries a code other than the string ABORT_ERR, such as the
    number 20 of a [DOMException], the call does not report a timeout: it
    fails with the wrapper whose code is undefined and whose cause is the
    rejection. *)
Theorem fetchWithTimeout_timer_fired_other_code url timeout s e :
  In (TimerFires (next_timer s)) (events (pending url timeout s)) ->
  settled (pending url timeout s) = Throw e ->
  get_prop (heap (resumed url timeout s)) e "code" <> VStr "ABORT_ERR" ->
  exists l fe s',
    fetchWithTimeout url timeout s = (Throw (VRef l), s') /\
    heap s' !! l = Some fe /\
    obj_props fe !! "code" = Some VUndefined /\
    obj_props fe !! "cause" = Some e /\
    obj_props fe !! "message"
    = Some (VStr (getErrorMessage (heap (resumed url timeout s)) e)).
Proof.
  intros _ He Hcode.
  assert (is_abort_error (heap (resumed url timeout s)) e = false) as Ha.
  { unfold is_abort_error, strict_eq.
    rewrite (bool_decide_eq_false_2 _ Hcode). apply andb_false_r. }
  destruct (fetchWithTimeout_rejected url timeout s e He)
    as [l [fe [E [Hl [_ [_ [Hc [Hmsg Hcause]]]]]]]].
  rewrite Ha in Hc, Hmsg, Hcause.
  eexists l, fe, _. split; [exact E|].
  cbn [clearTimeout snd set_timers set_heap heap].
  rewrite lookup_insert_eq. now repeat split.
Qed.

(** X8. The callback of the timer aborts the controller of the call.
    When the timer fires while it is still pending, the signal of that
    controller is aborted when the call exits; when no timer callback
    runs during the wait, it is not. *)
Theorem fetchWithTimeout_aborts_controller url timeout s :
  (forall pre post : list EnvEvent,
      events (pending url timeout s) = (pre ++ TimerFires (next_timer s) :: post)%list ->
      forallb (keeps (next_timer s)) pre = true ->
      controllers (snd (fetchWithTimeout url timeout s)) !! controller_of s
      = Some true) /\
  (forallb runs_no_callback (events (pending url timeout s)) = true ->
   controllers (snd (fetchWithTimeout url timeout s)) !! controller_of s
   = Some false).
Proof.
  destruct (fetchWithTimeout_exit_state url timeout s) as [-> _].
  unfold resumed. split.
  - intros pre post -> Hpre.
    unfold env_run. rewrite fold_left_app. cbn [fold_left].
    apply env_run_controller_aborted.
    destruct (env_run_keeps pre (suspended timeout s) (next_timer s)
                {| callback := AbortCallback (controller_of s); delay := timeout |})
      as [Ht _]; [cbn; lia | apply lookup_insert_eq | exact Hpre |].
    unfold env_run in Ht. cbn [env_step]. rewrite Ht. cbn.
    apply lookup_insert_eq.
  - intros Hq. rewrite (env_run_no_callback _ _ Hq). apply lookup_insert_eq.
Qed.

(** X9. When no other task arms a timer during the wait, every timer
    pending after the call was pending before it: calls do not leave
    timers behind, however many are made. *)
Theorem fetchWithTimeout_leaves_no_timer url timeout s :
  forallb quiet (events (pending url timeout s)) = true ->
  timers (snd (fetchWithTimeout url timeout s)) ⊆ timers s.
Proof. apply fetchWithTimeout_no_leak. Qed.

(** X10. A call owns its controller and its timer. The controller it
    creates is one the process did not have, and if every pending handle
    lies below the next handle before the call, then the handle it arms
    was not pending, the same invariant holds after the call, whatever
    happened meanwhile, and the next handle has moved past the one the
    call used: a later call never arms or clears the timer of an earlier
    one. *)
Theorem fetchWithTimeout_timers_wf url timeout s :
  timers_wf s ->
  controllers s !! controller_of s = None /\
  timers s !! next_timer s = None /\
  timers_wf (snd (fetchWithTimeout url timeout s)) /\
  next_timer s < next_timer (snd (fetchWithTimeout url timeout s)).
Proof.
  intros Hwf.
  split; [unfold controller_of; apply not_elem_of_dom; apply is_fresh|].
  split.
  { destruct (timers s !! next_timer s) as [t|] eqn:E; [|reflexivity].
    assert (next_timer s < next_timer s) by (apply Hwf; eauto). lia. }
  assert (timers_wf (suspended timeout s)) as Hws.
  { intros id. unfold suspended. cbn. rewrite lookup_insert_is_Some.
    intros [<- | [_ Hs]]; [lia|]. specialize (Hwf _ Hs). lia. }
  destruct (env_run_timers_wf (events (pending url timeout s)) _ Hws) as [Hwr Hn].
  fold (resumed url timeout s) in Hwr, Hn.
  destruct (fetchWithTimeout_exit_state url timeout s) as [_ [Hnt _]].
  split.
  - intros id. rewrite fetchWithTimeout_exit_timers, Hnt, lookup_delete_is_Some.
    intros [_ Hs]. now apply Hwr.
  - rewrite Hnt. cbn in Hn. lia.
Qed.

End TimeoutGuardMore.

Lemma fetchWithTimeout_abort_without_timer_witness :
  exists l fe s',
    @fetchWithTimeout (scripted aborted_at_once) "http://example.com/" 30000 Double.start
    = (Throw (VRef l), s') /\
    heap s' !! l = Some fe /\
    obj_props fe !! "message" = Some (VStr "Request timed out after 30000ms") /\
    obj_props fe !! "cause" = None /\
    controllers s' !! 0 = Some false.
Proof.
  destruct (@fetchWithTimeout_abort_without_timer (scripted aborted_at_once)
              "http://example.com/" 30000 Double.start (VRef 1)
              eq_refl eq_refl eq_refl eq_refl)
    as [l [fe [s' [E [Hl [_ [Hmsg [Hcause Hctl]]]]]]]].
  exists l, fe, s'. repeat split; assumption.
Defined.

Lemma fetchWithTimeout_timer_fired_other_code_witness :
  exists l fe s',
    @fetchWithTimeout (scripted aborted_with_dom) "http://example.com/" 50 Double.start
    = (Throw (VRef l), s') /\
    heap s' !! l = Some fe /\
    obj_props fe !! "code" = Some VUndefined /\
    obj_props fe !! "cause" = Some (VRef 3).
Proof.
  destruct (@fetchWithTimeout_timer_fired_other_code (scripted aborted_with_dom)
              "http://example.com/" 50 Double.start (VRef 3)
              (or_introl eq_refl) eq_refl)
    as [l [fe [s' [E [Hl [Hcode [Hcause _]]]]]]].
  - vm_compute. discriminate.
  - exists l, fe, s'. repeat split; assumption.
Defined.

(** C2. A request that never answers, on a platform whose [fetch]
    rejects an aborted request with a [DOMException] (name AbortError,
    code 20), as Node's does. The timer of the call fires and its
    callback aborts the controller; the call then fails, not with the
    timeout error, but with the wrapper of the rejection: code
    undefined, the message of the [DOMException], no mention of the
    configured 50. *)
Theorem fetchWithTimeout_timeout_missed :
  let r := @fetchWithTimeout (scripted aborted_with_dom) "http://example.com/" 50
             Double.start in
  In (TimerFires (next_timer Double.start))
     (events (@pending (scripted aborted_with_dom) "http://example.com/" 50
                Double.start)) /\
  controllers (snd r) !! 0 = Some true /\
  settled (@pending (scripted aborted_with_dom) "http://example.com/" 50 Double.start)
  = Throw (VRef 3) /\
  get_prop (heap (snd r)) (VRef 3) "name" = VStr "AbortError" /\
  get_prop (heap (snd r)) (VRef 3) "code" = VNum 20 /\
  fst r = Throw (VRef 4) /\
  get_prop (heap (snd r)) (VRef 4) "code" = VUndefined /\
  get_prop (heap (snd r)) (VRef 4) "message" = VStr "This operation was aborted" /\
  get_prop (heap (snd r)) (VRef 4) "cause" = VRef 3.
Proof. vm_compute. repeat split; try reflexivity. now left. Qed.

Lemma fetchWithTimeout_aborts_controller_witness :
  controllers (snd (@fetchWithTimeout double "http://example.com/hang" 50 Double.start))
    !! 0 = Some true /\
  controllers (snd (@fetchWithTimeout double "http://example.com/" 50 Double.start))
    !! 0 = Some false.
Proof.
  split.
  - apply (proj1 (@fetchWithTimeout_aborts_controller double "http://example.com/hang"
                    50 Double.start) [] []); reflexivity.
  - apply (proj2 (@fetchWithTimeout_aborts_controller double "http://example.com/"
                    50 Double.start)); reflexivity.
Defined.

Lemma fetchWithTimeout_leaves_no_timer_witness :
  timers (snd (@fetchWithTimeout double "http://example.com/hang" 50 Double.start))
  ⊆ timers Double.start.
Proof.
  apply (@fetchWithTimeout_leaves_no_timer double "http://example.com/hang" 50
           Double.start).
  reflexivity.
Defined.

Lemma fetchWithTimeout_timers_wf_witness :
  timers_wf (snd (@fetchWithTimeout double "http://example.com/reset" 50 Double.start)) /\
  next_timer Double.start
  < next_timer (snd (@fetchWithTimeout double "http://example.com/reset" 50 Double.start)).
Proof.
  destruct (@fetchWithTimeout_timers_wf double "http://example.com/reset" 50
              Double.start) as [_ [_ Hw]]; [|exact Hw].
  intros id [t Ht]. cbn in Ht. rewrite lookup_empty in Ht. discriminate Ht.
Defined.

(** ** Sequences of configuration calls, and the caller *)

Section ConfiguratorMore.

Context `{Platform}.

Lemma effective_last_accepted cs d0 :
  effective cs d0
  = match last (List.filter accepts cs) with
    | Some c => Some (dispatcher_of c)
    | None => d0
    end.
Proof.
  revert d0. induction cs as [|c cs IH]; intros d0; [reflexivity|].
  unfold effective in *. cbn [fold_left List.filter]. rewrite IH.
  destruct (accepts c); [|reflexivity].
  rewrite last_cons. now destruct (last (List.filter accepts cs)).
Qed.

Lemma run_call_frame c s :
  heap (snd (run_call c s)) = heap s /\
  timers (snd (run_call c s)) = timers s /\
  next_timer (snd (run_call c s)) = next_timer s /\
  controllers (snd (run_call c s)) = controllers s.
Proof.
  destruct (accepts c) eqn:E.
  - now rewrite (run_call_accepts _ _ E).
  - destruct (run_call_refuses _ s E) as [e ->]. now repeat split.
Qed.

(** X11. After any sequence of calls the global dispatcher is the one
    of the last call that was accepted, and the initial one when none
    was; the calls touch nothing else of the process state. *)
Theorem run_calls_last_accepted cs s :
  globalDispatcher (run_calls cs s)
  = match last (List.filter accepts cs) with
    | Some c => Some (dispatcher_of c)
    | None => globalDispatcher s
    end /\
  heap (run_calls cs s) = heap s /\
  timers (run_calls cs s) = timers s /\
  next_timer (run_calls cs s) = next_timer s /\
  controllers (run_calls cs s) = controllers s.
Proof.
  split; [rewrite run_calls_effective; apply effective_last_accepted|].
  revert s. induction cs as [|c cs IH]; intros s; [now repeat split|].
  change (run_calls (c :: cs) s) with (run_calls cs (snd (run_call c s))).
  destruct (IH (snd (run_call c s))) as [-> [-> [-> ->]]].
  apply run_call_frame.
Qed.

(** X12. The two operations never install a dispatcher without HTTP/2:
    after any sequence of calls, the global dispatcher, if there is one,
    has multiplexing enabled, provided some call of the sequence was
    accepted or the dispatcher in force before had it enabled. *)
Theorem run_calls_multiplexing cs s d :
  globalDispatcher (run_calls cs s) = Some d ->
  existsb accepts cs = true \/
  (forall d0, globalDispatcher s = Some d0 -> multiplexing d0 = true) ->
  multiplexing d = true.
Proof.
  rewrite run_calls_effective, effective_last_accepted.
  destruct (last (List.filter accepts cs)) as [c|] eqn:El.
  - intros [= <-] _. now destruct c.
  - intros Hd [Hex | Hinit]; [|now apply Hinit].
    apply existsb_exists in Hex. destruct Hex as [c [Hin Hc]].
    assert (In c (List.filter accepts cs)) as Hf by (apply filter_In; now split).
    destruct (List.filter accepts cs) as [|x l]; [contradiction|].
    rewrite last_cons in El. now destruct (last l).
Qed.

(** X13. The transport set-up of the [Config] constructor. Without a
    proxy, or with the empty string, it enables HTTP/2 on a direct agent;
    with a proxy URI that is accepted it installs the proxy agent; with
    one that is refused, control passes to the [catch] handler with the
    error of the constructor, in the state as it was before the call,
    nothing having been installed, and the outcome is the handler's. *)
Theorem Config_transport_cases proxy on_error s :
  (proxy = None \/ proxy = Some "" ->
   Config_transport proxy on_error s
   = (Normal tt,
      set_globalDispatcher (Some (Agent {| uri := None; allowH2 := true |})) s)) /\
  (forall p, proxy = Some p -> p <> "" ->
     match ProxyAgent_rejects {| uri := Some p; allowH2 := true |} with
     | None =>
         Config_transport proxy on_error s
         = (Normal tt,
            set_globalDispatcher
              (Some (ProxyAgent {| uri := Some p; allowH2 := true |})) s)
     | Some e => Config_transport proxy on_error s = on_error e s
     end).
Proof.
  split.
  - intros [-> | ->]; reflexivity.
  - intros p -> Hp. destruct p as [|c p]; [contradiction|].
    unfold Config_transport, try_catch.
    destruct (ProxyAgent_rejects _) as [e|] eqn:E.
    + now rewrite (setGlobalProxy_rejected _ _ _ E).
    + now rewrite (setGlobalProxy_accepted _ _ E).
Qed.

End ConfiguratorMore.

Lemma run_calls_multiplexing_witness :
  exists d,
    globalDispatcher
      (@run_calls double
         [EnableHttp2; SetGlobalProxy "http://proxy.local:8080";
          SetGlobalProxy "not a uri"]
         Double.start) = Some d /\
    multiplexing d = true.
Proof.
  eexists. split; [reflexivity|].
  apply (@run_calls_multiplexing double
           [EnableHttp2; SetGlobalProxy "http://proxy.local:8080";
            SetGlobalProxy "not a uri"]
           Double.start).
  - reflexivity.
  - left. reflexivity.
Defined.

Lemma Config_transport_cases_witness :
  globalDispatcher (snd (@Config_transport double (Some "") ignore_error Double.start))
  = Some (Agent {| uri := None; allowH2 := true |}) /\
  @Config_transport double (Some "not a uri") ignore_error Double.start
  = (Normal tt, Double.start).
Proof.
  destruct (@Config_transport_cases double (Some "") ignore_error Double.start)
    as [Ha _].
  destruct (@Config_transport_cases double (Some "not a uri") ignore_error Double.start)
    as [_ Hb].
  split.
  - rewrite Ha; [reflexivity | now right].
  - apply (Hb "not a uri" eq_refl). discriminate.
Defined.
